(** * openage [libopenage/error/stackanalyzer.cpp]: capture, resolution and
    trimming of call stacks.

    The three build-time backends of [StackAnalyzer] are embedded as the
    modules [Libbacktrace] (WITH_BACKTRACE), [Windows] (_WIN32) and [Posix]
    (GNU execinfo); [Fallback] holds the [get_symbols] shared by the last
    two.  The platform primitives ([backtrace_simple], [backtrace_pcinfo],
    [backtrace_syminfo], [backtrace], [RtlCaptureStackBackTrace]) and the
    utilities [util::demangle] and [util::symbol_name] are not part of the
    file: the utilities and the answers of the debug-info library are the
    fields of the class [Externals], the call stack seen by a capture
    primitive is an explicit argument [frames]. *)

From stdpp Require Import prelude strings.

(** ** Data model *)

(** [void *] / [uintptr_t]: only identity is ever used. *)
Definition Address : Type := Z.

Bind Scope Z_scope with Address.

Definition null : Address := 0%Z.

(** [struct backtrace_symbol] (declared in the header; fields in the order
    of the aggregate initialisers of the source). *)
Record backtrace_symbol : Type := mk_symbol {
  filename : string;
  lineno : Z;
  functionname : string;
  pc : Address
}.

(** [constexpr uint64_t skip_entry_frames = 1;] *)
Definition skip_entry_frames : nat := 1.

(** [constexpr uint64_t base_skip_frames = 1;] *)
Definition base_skip_frames : nat := 1.

(** ** Outcomes of C++ code

    [Undefined]: the execution reached an operation without defined
    behaviour ([pop_back()] on an empty vector).  [OutOfFuel]: the bound on
    the number of loop iterations given to the model was used up. *)
Inductive outcome (A : Type) : Type :=
| Returns (a : A)
| Undefined
| OutOfFuel.

Arguments Returns {A} a.
Arguments Undefined {A}.
Arguments OutOfFuel {A}.

#[global] Instance outcome_ret : MRet outcome := @Returns.

#[global] Instance outcome_bind : MBind outcome := λ A B f m,
  match m with
  | Returns a => f a
  | Undefined => Undefined
  | OutOfFuel => OutOfFuel
  end.

(** ** [std::vector<T>] *)

Definition empty {A} (v : list A) : bool :=
  match v with [] => true | _ :: _ => false end.

(** [v.back()], guarded by [empty] wherever the source calls it. *)
Definition back {A} (v : list A) : option A := last v.

Definition push_back {A} (v : list A) (x : A) : list A := v ++ [x].

(** [v.pop_back()]: undefined on an empty vector. *)
Definition pop_back {A} (v : list A) : outcome (list A) :=
  if empty v then Undefined else Returns (removelast v).

(** [v.resize(n)] on a vector of pointers: new slots are null. *)
Definition resize (n : nat) (v : list Address) : list Address :=
  take n v ++ replicate (n - length v) null.

(** ** Trimming: [StackAnalyzer::trim_to_current_stack_frame] *)

(** The loop condition
    [not current.stack_addrs.empty() and not this->stack_addrs.empty()]. *)
Definition trim_cond (this current : list Address) : bool :=
  negb (empty current) && negb (empty this).

Inductive iteration : Type :=
| Break
| Continue (this current : list Address).

(** One execution of the loop body. *)
Definition trim_body (this current : list Address) : outcome iteration :=
  if bool_decide (back this ≠ back current) then Returns Break
  else this' ← pop_back this;
       current' ← pop_back current;
       Returns (Continue this' current').

(** The [while] loop; the third component of the result counts the
    executions of the body and [iters] is the count so far. *)
Fixpoint trim_loop (fuel : nat) (this current : list Address) (iters : nat)
  : outcome (list Address * list Address * nat) :=
  if trim_cond this current then
    match fuel with
    | 0 => OutOfFuel
    | S fuel' =>
        r ← trim_body this current;
        match r with
        | Break => Returns (this, current, S iters)
        | Continue this' current' => trim_loop fuel' this' current' (S iters)
        end
    end
  else Returns (this, current, iters).

(** [analyze] is the capture of the selected backend run in the present
    execution context; [StackAnalyzer current;] starts with an empty
    [stack_addrs].  The result is the receiver's [stack_addrs]. *)
Definition trim_to_current_stack_frame
    (analyze : list Address → outcome (list Address))
    (fuel : nat) (this : list Address) : outcome (list Address) :=
  current ← analyze [];
  r ← trim_loop fuel this current 0;
  Returns r.1.1.

(** ** External collaborators

    [util::demangle] and [util::symbol_name] are utilities of the repository
    outside this file.  The debug-info library answers a query about an
    address by invoking the callbacks it was handed: [pcinfo_events] is the
    sequence of invocations [backtrace_pcinfo] makes for an address (the
    result callback once per record, or the error callback), and
    [syminfo_event_of] the single invocation of [backtrace_syminfo]
    (its result callback, with a null [symname] when the symbol table has
    no entry, or its error callback). *)
Inductive pcinfo_event : Type :=
| PcInfo (file : option string) (line : Z) (function : option string)
| PcError (msg : string) (errorno : Z).

Inductive syminfo_event : Type :=
| SymInfo (symname : option string)
| SymError (msg : string) (errorno : Z).

Class Externals : Type := {
  demangle : string → string;
  symbol_name : Address → bool → bool → string;
  pcinfo_events : Address → list pcinfo_event;
  syminfo_event_of : Address → syminfo_event
}.

(** ** Debug-info-library backend ([#if WITH_BACKTRACE]) *)
Module Libbacktrace.

(** One message of [log::log(ERR << "libbacktrace: " << msg << ...)]. *)
Record log_entry : Type := mk_log {
  log_msg : string;
  log_errno : Z
}.

(** [struct info_cb_data_t]. *)
Record info_cb_data_t : Type := mk_info {
  symbols : list backtrace_symbol;
  info_pc : Address
}.

(** What the callbacks of one resolution can read and write: the
    [info_cb_data_t] behind [void *data] and the log. *)
Record world : Type := mk_world {
  data : info_cb_data_t;
  log : list log_entry
}.

Definition backtrace_error_callback (msg : string) (errorno : Z) (w : world)
  : world :=
  mk_world (data w) (log w ++ [mk_log msg errorno]).

Definition emplace_back (s : backtrace_symbol) (w : world) : world :=
  mk_world (mk_info (push_back (symbols (data w)) s) (info_pc (data w)))
           (log w).

Definition backtrace_syminfo_callback `{Externals}
    (pc0 : Address) (symname : option string) (w : world) : world :=
  emplace_back
    (mk_symbol ""
               0
               (match symname with None => ""%string | Some s => demangle s end)
               pc0) w.

(** Returns the [int] handed back to the library together with the
    state; [static_cast<unsigned int>(lineno)] wraps modulo 2^32. *)
Definition backtrace_pcinfo_callback `{Externals}
    (pc0 : Address) (file : option string) (line : Z)
    (function : option string) (w : world) : Z * world :=
  match function with
  | None =>
      (0%Z, emplace_back
              (mk_symbol "" 0 (symbol_name pc0 false true) pc0) w)
  | Some f =>
      (0%Z, emplace_back
              (mk_symbol (match file with None => ""%string | Some n => n end)
                         (line `mod` 2 ^ 32)%Z
                         (demangle f)
                         pc0) w)
  end.

(** The library's [backtrace_syminfo]: exactly one of the two callbacks. *)
Definition backtrace_syminfo `{Externals} (pc0 : Address)
    (callback : Address → option string → world → world)
    (error_callback : string → Z → world → world) (w : world) : world :=
  match syminfo_event_of pc0 with
  | SymInfo symname => callback pc0 symname w
  | SymError msg errorno => error_callback msg errorno w
  end.

Definition backtrace_pcinfo_error_callback `{Externals}
    (msg : string) (errorno : Z) (w : world) : world :=
  if bool_decide (errorno = (-1)%Z) then
    backtrace_syminfo (info_pc (data w))
      backtrace_syminfo_callback backtrace_error_callback w
  else backtrace_error_callback msg errorno w.

(** The library walks its answer, handing the queried address back as
    [pc]; a non-zero return of the result callback stops it. *)
Fixpoint deliver_pcinfo (pc0 : Address)
    (callback : Address → option string → Z → option string → world
                → Z * world)
    (error_callback : string → Z → world → world)
    (evs : list pcinfo_event) (w : world) : world :=
  match evs with
  | [] => w
  | PcInfo file line function :: rest =>
      let '(ret, w') := callback pc0 file line function w in
      if bool_decide (ret = 0%Z)
      then deliver_pcinfo pc0 callback error_callback rest w'
      else w'
  | PcError msg errorno :: rest =>
      deliver_pcinfo pc0 callback error_callback rest
        (error_callback msg errorno w)
  end.

Definition backtrace_pcinfo `{Externals} (pc0 : Address)
    (callback : Address → option string → Z → option string → world
                → Z * world)
    (error_callback : string → Z → world → world) (w : world) : world :=
  deliver_pcinfo pc0 callback error_callback (pcinfo_events pc0) w.

(** The body of the [for (void *pc : this->stack_addrs)] loop. *)
Definition resolve_one `{Externals} (w : world) (pc0 : Address) : world :=
  let w := mk_world (mk_info (symbols (data w)) pc0) (log w) in
  backtrace_pcinfo pc0
    backtrace_pcinfo_callback backtrace_pcinfo_error_callback w.

(** [StackAnalyzer::get_symbols]: [cb] is the caller's callback acting on
    the caller's state [s]; [log0] is the log before the call. *)
Definition get_symbols `{Externals} {St : Type}
    (cb : backtrace_symbol → St → St) (reversed : bool)
    (stack_addrs : list Address) (log0 : list log_entry) (s : St)
  : St * list log_entry :=
  let info_cb_data := mk_world (mk_info [] null) log0 in
  let w := foldl resolve_one info_cb_data stack_addrs in
  if reversed
  then (foldl (λ st r, cb r st) s (reverse (symbols (data w))), log w)
  else (foldl (λ st r, cb r st) s (symbols (data w)), log w).

(** [backtrace_simple_callback]: [bt->stack_addrs.push_back(pc); return 0;] *)
Definition backtrace_simple_callback (pc0 : Address)
    (stack_addrs : list Address) : Z * list Address :=
  (0%Z, push_back stack_addrs pc0).

Fixpoint walk_frames (callback : Address → list Address → Z * list Address)
    (frames : list Address) (stack_addrs : list Address) : list Address :=
  match frames with
  | [] => stack_addrs
  | f :: rest =>
      let '(ret, stack_addrs') := callback f stack_addrs in
      if bool_decide (ret = 0%Z)
      then walk_frames callback rest stack_addrs'
      else stack_addrs'
  end.

(** The library's [backtrace_simple] on the call stack [frames] (most
    recent call first, the caller of the primitive at position 0). *)
Definition backtrace_simple (frames : list Address) (skip : nat)
    (callback : Address → list Address → Z * list Address)
    (stack_addrs : list Address) : list Address :=
  walk_frames callback (drop skip frames) stack_addrs.

(** [StackAnalyzer::analyze]. *)
Definition analyze (frames : list Address) (stack_addrs : list Address)
  : outcome (list Address) :=
  Returns (backtrace_simple frames base_skip_frames
             backtrace_simple_callback stack_addrs).

End Libbacktrace.

(** ** Windows backend ([#ifdef _WIN32]) *)
Module Windows.

(** [RtlCaptureStackBackTrace(FramesToSkip, FramesToCapture, BackTrace,
    NULL)]: fills the front of the buffer, returns the number of frames
    written. *)
Definition RtlCaptureStackBackTrace (frames : list Address)
    (FramesToSkip FramesToCapture : nat) (buffer : list Address)
  : nat * list Address :=
  let written := take FramesToCapture (drop FramesToSkip frames) in
  (length written, written ++ drop (length written) buffer).

(** [StackAnalyzer::analyze].  [std::vector<void *> buffer{64};] is the
    vector of 64 null pointers (64 does not convert to [void *], so the size
    constructor is chosen). *)
Definition analyze (frames : list Address) (stack_addrs : list Address)
  : outcome (list Address) :=
  let buffer := replicate 64 null in
  let '(count, buffer) :=
    RtlCaptureStackBackTrace frames base_skip_frames (length buffer) buffer in
  let buffer :=
    if count <? length buffer then resize count buffer else buffer in
  Returns buffer.

End Windows.

(** ** POSIX backend (GNU [<execinfo.h>])

    Frame counts and buffer sizes are natural numbers: the conversions
    between [int], [ssize_t] and [size_t] of the source are exact for call
    stacks of fewer than 2^30 frames. *)
Module Posix.

(** [backtrace(buffer.data(), buffer.size())]. *)
Definition backtrace (frames : list Address) (buffer : list Address)
    (size : nat) : nat * list Address :=
  let written := take size frames in
  (length written, written ++ drop (length written) buffer).

Inductive attempt : Type :=
| Stop (buffer : list Address)
| Retry (buffer : list Address).

(** One execution of the body of [while (true)]. *)
Definition capture_attempt (frames : list Address) (buffer : list Address)
  : attempt :=
  let '(elements, buffer) := backtrace frames buffer (length buffer) in
  if elements <? length buffer
  then Stop (resize elements buffer)
  else Retry (resize (length buffer * 2) buffer).

Fixpoint capture_loop (fuel : nat) (frames : list Address)
    (buffer : list Address) : outcome (list Address) :=
  match capture_attempt frames buffer with
  | Stop buffer' => Returns buffer'
  | Retry buffer' =>
      match fuel with
      | 0 => OutOfFuel
      | S fuel' => capture_loop fuel' frames buffer'
      end
  end.

(** [for (void *element : buffer) { if (idx >= base_skip_frames) ...;
    idx += 1; }] on the state [(idx, stack_addrs)]. *)
Definition store_element (st : nat * list Address) (element : Address)
  : nat * list Address :=
  (st.1 + 1,
   if base_skip_frames <=? st.1 then push_back st.2 element else st.2).

(** [for (uint64_t i = 0; i < skip_entry_frames; i++) pop_back();] with
    [n] iterations left. *)
Fixpoint drop_entry_frames (n : nat) (stack_addrs : list Address)
  : outcome (list Address) :=
  match n with
  | 0 => Returns stack_addrs
  | S n' => stack_addrs' ← pop_back stack_addrs;
            drop_entry_frames n' stack_addrs'
  end.

(** [StackAnalyzer::analyze]: the loop on [std::vector<void *> buffer{64}]
    (64 null pointers), the store loop, the loop of [pop_back()]. *)
Definition analyze (fuel : nat) (frames : list Address)
    (stack_addrs : list Address) : outcome (list Address) :=
  buffer ← capture_loop fuel frames (replicate 64 null);
  drop_entry_frames skip_entry_frames
    (foldl store_element (0, stack_addrs) buffer).2.

End Posix.

(** ** [get_symbols] of the builds without the debug-info library *)
Module Fallback.

(** One iteration: the two assignments to the local [symbol], then
    [cb(&symbol)], which sees the record as it is at that moment. *)
Definition deliver `{Externals} {St : Type}
    (cb : backtrace_symbol → St → St)
    (acc : backtrace_symbol * St) (pc0 : Address) : backtrace_symbol * St :=
  let symbol := acc.1 in
  let symbol :=
    mk_symbol (filename symbol) (lineno symbol)
              (symbol_name pc0 false true) (pc symbol) in
  let symbol :=
    mk_symbol (filename symbol) (lineno symbol) (functionname symbol) pc0 in
  (symbol, cb symbol acc.2).

Definition get_symbols `{Externals} {St : Type}
    (cb : backtrace_symbol → St → St) (reversed : bool)
    (stack_addrs : list Address) (s : St) : St :=
  let symbol := mk_symbol "" 0 "" null in
  if reversed
  then (foldl (deliver cb) (symbol, s) (reverse stack_addrs)).2
  else (foldl (deliver cb) (symbol, s) stack_addrs).2.

End Fallback.

(** ** The records a call of [get_symbols] delivers

    The caller's callback appends every record it is given to a list. *)
Definition collect (r : backtrace_symbol) (seen : list backtrace_symbol)
  : list backtrace_symbol := seen ++ [r].

Definition delivered_libbacktrace `{Externals} (reversed : bool)
    (stack_addrs : list Address) : list backtrace_symbol :=
  (Libbacktrace.get_symbols collect reversed stack_addrs [] []).1.

Definition delivered_fallback `{Externals} (reversed : bool)
    (stack_addrs : list Address) : list backtrace_symbol :=
  Fallback.get_symbols collect reversed stack_addrs [].

(** The records the loop body of [Libbacktrace.get_symbols] pushes for one
    address, seen on an empty vector. *)
Definition records_of `{Externals} (pc0 : Address) : list backtrace_symbol :=
  Libbacktrace.symbols
    (Libbacktrace.data
       (Libbacktrace.resolve_one
          (Libbacktrace.mk_world (Libbacktrace.mk_info [] null) []) pc0)).

(** The records pushed in answer to one invocation by the library, seen on
    an empty vector. *)
Definition event_records `{Externals} (pc0 : Address) (ev : pcinfo_event)
  : list backtrace_symbol :=
  Libbacktrace.symbols
    (Libbacktrace.data
       (Libbacktrace.deliver_pcinfo pc0
          Libbacktrace.backtrace_pcinfo_callback
          Libbacktrace.backtrace_pcinfo_error_callback [ev]
          (Libbacktrace.mk_world (Libbacktrace.mk_info [] pc0) []))).

(** The record of the fallback backends for one address. *)
Definition fallback_record `{Externals} (pc0 : Address) : backtrace_symbol :=
  mk_symbol "" 0 (symbol_name pc0 false true) pc0.

(** ** Predicates on the answers of the debug-info library *)

(** The answer makes the code push a record: the library invoked the
    result callback of the line-info query, or reported "not found"
    (error number -1) and then invoked the result callback of the
    symbol-table query. *)
Definition event_answered `{Externals} (pc0 : Address) (ev : pcinfo_event)
  : bool :=
  match ev with
  | PcInfo _ _ _ => true
  | PcError _ errorno =>
      bool_decide (errorno = (-1)%Z) &&
      match syminfo_event_of pc0 with
      | SymInfo _ => true
      | SymError _ _ => false
      end
  end.

Definition answered `{Externals} (pc0 : Address) : bool :=
  existsb (event_answered pc0) (pcinfo_events pc0).

(** No invocation of the result callback carries a function name. *)
Definition without_debug_info `{Externals} (pc0 : Address) : bool :=
  forallb (λ ev, match ev with
                 | PcInfo _ _ (Some _) => false
                 | _ => true
                 end) (pcinfo_events pc0).

(** ** A sample platform

    Address 1 has full debug info, 2 is known to the line-info query without
    a function, 3 has no debug info but a symbol-table entry, 4 makes the
    library fail on malformed debug sections, 5 expands to two inlined
    records, 6 has neither debug info nor a symbol-table entry; every other
    address has no debug info and makes the symbol-table query fail. *)
Definition sample_externals : Externals := {|
  demangle := λ s, String.append "d:" s;
  symbol_name := λ a _ _,
    if bool_decide (a = 6%Z) then "start"%string else ""%string;
  pcinfo_events := λ a,
    if bool_decide (a = 1%Z) then
      [PcInfo (Some "a.cpp"%string) 10 (Some "_Zf"%string)]
    else if bool_decide (a = 2%Z) then [PcInfo None 0 None]
    else if bool_decide (a = 3%Z) then [PcError "no debug info" (-1)]
    else if bool_decide (a = 4%Z) then [PcError "bad dwarf" 0]
    else if bool_decide (a = 5%Z) then
      [PcInfo (Some "i.h"%string) 3 (Some "inl"%string);
       PcInfo (Some "b.cpp"%string) 7 (Some "outer"%string)]
    else [PcError "no debug info" (-1)];
  syminfo_event_of := λ a,
    if bool_decide (a = 3%Z) then SymInfo (Some "_Zg"%string)
    else if bool_decide (a = 6%Z) then SymInfo None
    else SymError "no symbol table" 2
|}.

(** The log entries the loop body of [Libbacktrace.get_symbols] writes for
    one address, seen on an empty log. *)
Definition log_of `{Externals} (pc0 : Address)
  : list Libbacktrace.log_entry :=
  Libbacktrace.log
    (Libbacktrace.resolve_one
       (Libbacktrace.mk_world (Libbacktrace.mk_info [] null) []) pc0).

(** The log entries written in answer to one invocation by the library,
    seen on an empty log. *)
Definition event_log `{Externals} (pc0 : Address) (ev : pcinfo_event)
  : list Libbacktrace.log_entry :=
  Libbacktrace.log
    (Libbacktrace.deliver_pcinfo pc0
       Libbacktrace.backtrace_pcinfo_callback
       Libbacktrace.backtrace_pcinfo_error_callback [ev]
       (Libbacktrace.mk_world (Libbacktrace.mk_info [] pc0) [])).

(** * Properties *)

(** ** Vectors *)

Lemma snoc_cases {A} (l : list A) : l = [] ∨ ∃ l' x, l = l' ++ [x].
Proof.
  induction l as [|x l _] using rev_ind; [by left | right; eauto].
Qed.

Lemma empty_snoc {A} (l : list A) x : empty (l ++ [x]) = false.
Proof. by destruct l. Qed.

Lemma empty_true {A} (l : list A) : empty l = true ↔ l = [].
Proof. by destruct l. Qed.

Lemma back_snoc {A} (l : list A) x : back (l ++ [x]) = Some x.
Proof. apply last_snoc. Qed.

Lemma pop_back_snoc {A} (l : list A) x : pop_back (l ++ [x]) = Returns l.
Proof. unfold pop_back. by rewrite empty_snoc, removelast_last. Qed.

Lemma pop_back_nil {A} : pop_back (@nil A) = Undefined.
Proof. done. Qed.

(** ** The trimming loop *)

Lemma trim_cond_snoc t a c b : trim_cond (t ++ [a]) (c ++ [b]) = true.
Proof. unfold trim_cond. by rewrite !empty_snoc. Qed.

Lemma trim_cond_false this current :
  trim_cond this current = false ↔ this = [] ∨ current = [].
Proof. unfold trim_cond. destruct this, current; cbn; intuition congruence. Qed.

Lemma trim_body_continue this current this' current' :
  trim_body this current = Returns (Continue this' current') →
  ∃ x, this = this' ++ [x] ∧ current = current' ++ [x].
Proof.
  unfold trim_body. case_bool_decide as Hb; [done|].
  destruct (snoc_cases this) as [->|(t & a & ->)].
  { by rewrite pop_back_nil. }
  destruct (snoc_cases current) as [->|(c & b & ->)].
  { rewrite pop_back_snoc. by cbn. }
  rewrite !back_snoc in Hb. rewrite !pop_back_snoc. cbn.
  intros [= <- <-]. exists a. by simplify_eq.
Qed.

Lemma trim_body_snoc t a c b :
  trim_body (t ++ [a]) (c ++ [b]) =
    if bool_decide (a = b) then Returns (Continue t c) else Returns Break.
Proof.
  unfold trim_body. rewrite !back_snoc, !pop_back_snoc.
  repeat case_bool_decide; naive_solver.
Qed.

Lemma trim_loop_exit fuel this current n :
  this = [] ∨ current = [] →
  trim_loop fuel this current n = Returns (this, current, n).
Proof.
  intros Hc%trim_cond_false. destruct fuel; cbn [trim_loop]; by rewrite Hc.
Qed.

(** The loop ends, within [min (length this) (length current)] executions
    of its body, on a split of both vectors at a common suffix that cannot
    be extended. *)
Lemma trim_loop_run fuel : ∀ this current n,
  length this `min` length current ≤ fuel →
  ∃ this' current' S m,
    this = this' ++ S ∧ current = current' ++ S ∧
    (this' = [] ∨ current' = [] ∨ back this' ≠ back current') ∧
    length S ≤ m ∧ m ≤ length this `min` length current ∧
    trim_loop fuel this current n = Returns (this', current', n + m).
Proof.
  induction fuel as [|fuel IH]; intros this current n Hfuel.
  - exists this, current, [], 0. rewrite !app_nil_r, Nat.add_0_r.
    assert (this = [] ∨ current = []) as Hc.
    { destruct this, current; cbn in Hfuel; auto; lia. }
    split_and!; [done|done|tauto|done|lia|]. by apply trim_loop_exit.
  - destruct (snoc_cases this) as [->|(t & a & ->)].
    { exists [], current, [], 0. rewrite !app_nil_r, Nat.add_0_r.
      split_and!; [done|done|tauto|done|lia|]. apply trim_loop_exit; auto. }
    destruct (snoc_cases current) as [->|(c & b & ->)].
    { exists (t ++ [a]), [], [], 0. rewrite !app_nil_r, Nat.add_0_r.
      split_and!; [done|done|tauto|done|lia|]. apply trim_loop_exit; auto. }
    cbn [trim_loop]. rewrite trim_cond_snoc, trim_body_snoc.
    rewrite !length_app in *. cbn [length] in *.
    case_bool_decide as Hab.
    + subst b. destruct (IH t c (S n)) as (t' & c' & S0 & m & -> & -> & Hstop & Hm1 & Hm2 & Hrun); [lia|].
      exists t', c', (S0 ++ [a]), (S m). rewrite !length_app in *. cbn [length].
      rewrite <-!(assoc_L (++)). split_and!; [done|done|done|lia|lia|].
      cbn. rewrite Hrun. f_equal. f_equal. lia.
    + exists (t ++ [a]), (c ++ [b]), [], 1. rewrite !app_nil_r.
      split_and!; [done|done| |cbn;lia|lia|].
      * right; right. rewrite !back_snoc. congruence.
      * cbn. do 2 f_equal. lia.
Qed.

(** A common suffix that cannot be extended is the longest one. *)
Lemma unextendable_suffix_longest (R' C' S K : list Address) :
  R' = [] ∨ C' = [] ∨ back R' ≠ back C' →
  K `suffix_of` R' ++ S → K `suffix_of` C' ++ S → K `suffix_of` S.
Proof.
  intros Hstop HR HC.
  destruct (suffix_weak_total K S (R' ++ S)) as [|[K' ->]]; [done|by apply suffix_app_r|done|].
  apply suffix_app_inv in HR, HC.
  destruct (snoc_cases K') as [->|(K'' & x & ->)]; [done|].
  destruct HR as [r ->], HC as [c ->]. exfalso.
  rewrite !(assoc_L (++)) in Hstop. rewrite !back_snoc in Hstop.
  destruct Hstop as [Hn|[Hn|Hn]]; [| |done].
  - by apply app_nil in Hn as [_ [=]].
  - by apply app_nil in Hn as [_ [=]].
Qed.

Lemma trim_to_current_stack_frame_run analyze fuel R C R' C' n :
  analyze [] = Returns C →
  trim_loop fuel R C 0 = Returns (R', C', n) →
  trim_to_current_stack_frame analyze fuel R = Returns R'.
Proof.
  intros Ha Hl. unfold trim_to_current_stack_frame. rewrite Ha. cbn.
  by rewrite Hl.
Qed.

(** C4: with [C] the freshly captured stack, trimming splits the receiver
    [R] and [C] at their longest common suffix [S] and leaves the receiver
    as the part [R'] before it; the loop stops because one side is used up
    or the backs differ; a receiver that is a suffix of [C] ends empty. *)
Theorem trim_removes_longest_common_suffix
    (analyze : list Address → outcome (list Address)) (fuel : nat)
    (R C : list Address) :
  analyze [] = Returns C →
  length R `min` length C ≤ fuel →
  ∃ R' C' S n,
    R = R' ++ S ∧ C = C' ++ S ∧
    (∀ K, K `suffix_of` R → K `suffix_of` C → K `suffix_of` S) ∧
    S = (max_suffix R C).2 ∧
    (R' = [] ∨ C' = [] ∨ back R' ≠ back C') ∧
    trim_loop fuel R C 0 = Returns (R', C', n) ∧
    trim_to_current_stack_frame analyze fuel R = Returns R' ∧
    (R `suffix_of` C → R' = []).
Proof.
  intros Ha Hfuel.
  destruct (trim_loop_run fuel R C 0 Hfuel)
    as (R' & C' & S & m & HR & HC & Hstop & _ & _ & Hrun).
  assert (∀ K, K `suffix_of` R → K `suffix_of` C → K `suffix_of` S) as Hmax.
  { intros K. rewrite HR, HC. by apply unextendable_suffix_longest. }
  exists R', C', S, (0 + m). split_and!; try done.
  - apply (anti_symm suffix).
    + apply max_suffix_max; [by exists R' | by exists C'].
    + apply Hmax; [apply max_suffix_fst_suffix | apply max_suffix_snd_suffix].
  - by eapply trim_to_current_stack_frame_run.
  - intros HRC. specialize (Hmax R (reflexivity _) HRC).
    apply suffix_length in Hmax. rewrite HR, length_app in Hmax.
    destruct R'; [done | cbn in Hmax; lia].
Qed.

Lemma trim_removes_longest_common_suffix_witness :
  ∃ R' C' S n,
    [9; 1; 2; 3]%Z = R' ++ S ∧ [8; 1; 2; 3]%Z = C' ++ S ∧
    S = (max_suffix [9; 1; 2; 3]%Z [8; 1; 2; 3]%Z).2 ∧
    trim_loop 4 [9; 1; 2; 3]%Z [8; 1; 2; 3]%Z 0 = Returns (R', C', n) ∧
    trim_to_current_stack_frame
      (Windows.analyze [100; 8; 1; 2; 3]%Z) 4 [9; 1; 2; 3]%Z = Returns R'.
Proof.
  destruct (trim_removes_longest_common_suffix
              (Windows.analyze [100; 8; 1; 2; 3]%Z) 4
              [9; 1; 2; 3]%Z [8; 1; 2; 3]%Z)
    as (R' & C' & S & n & HR & HC & _ & HS & _ & Hl & Ht & _).
  - reflexivity.
  - simpl. lia.
  - exists R', C', S, n. repeat split; assumption.
Defined.

(** C5 as stated fails: the back 3 addresses of the two stacks agree and so
    does the fourth from the back, and trimming removes all four. *)
Lemma trim_back3_removes_more :
  let A := [9; 1; 2; 3]%Z in
  let B := [9; 1; 2; 3]%Z in
  drop (length A - 3) A = drop (length B - 3) B ∧
  Windows.analyze (100%Z :: B) [] = Returns B ∧
  trim_to_current_stack_frame (Windows.analyze (100%Z :: B)) 4 A
    = Returns [] ∧
  trim_to_current_stack_frame (Windows.analyze (100%Z :: B)) 4 A
    ≠ Returns (take (length A - 3) A).
Proof. cbn. split_and!; done. Qed.

(** C5, amended: stacks without a common address leave the receiver as it
    is; when the back 3 addresses agree, trimming removes at least these 3,
    and exactly these 3 when a stack has no further entry or the entries
    before them differ. *)
Theorem trim_disjoint_and_back3
    (analyze : list Address → outcome (list Address)) (fuel : nat)
    (A B : list Address) :
  analyze [] = Returns B →
  length A `min` length B ≤ fuel →
  ((∀ x, x ∈ A → x ∉ B) →
     trim_to_current_stack_frame analyze fuel A = Returns A) ∧
  (∀ A' B' S, A = A' ++ S → B = B' ++ S → length S = 3 →
     ∃ rest, trim_to_current_stack_frame analyze fuel A = Returns rest ∧
       rest `prefix_of` A' ∧
       (A' = [] ∨ B' = [] ∨ back A' ≠ back B' → rest = A')).
Proof.
  intros Ha Hfuel.
  destruct (trim_loop_run fuel A B 0 Hfuel)
    as (R' & C' & S0 & m & HA & HB & Hstop & _ & _ & Hrun).
  pose proof (trim_to_current_stack_frame_run _ _ _ _ _ _ _ Ha Hrun) as Ht.
  split.
  - intros Hdisj. rewrite Ht. f_equal.
    destruct (snoc_cases S0) as [->|(S1 & x & ->)]; [by rewrite HA, app_nil_r|].
    destruct (Hdisj x); subst A B; rewrite !elem_of_app;
      right; right; by apply list_elem_of_singleton.
  - intros A' B' S HA' HB' _. exists R'. split; [done|].
    assert (S `suffix_of` S0) as [K ->].
    { apply (unextendable_suffix_longest R' C'); [done|..].
      - rewrite <-HA. by exists A'.
      - rewrite <-HB. by exists B'. }
    rewrite HA', (assoc_L (++)) in HA. apply (inj (.++ S)) in HA.
    rewrite HB', (assoc_L (++)) in HB. apply (inj (.++ S)) in HB.
    split; [by exists K|].
    destruct (snoc_cases K) as [->|(K' & x & ->)].
    { by rewrite HA, app_nil_r. }
    subst A' B'. rewrite !(assoc_L (++)), !back_snoc.
    intros [Hn|[Hn|Hn]]; [| |done].
    + by apply app_nil in Hn as [_ [=]].
    + by apply app_nil in Hn as [_ [=]].
Qed.

Lemma trim_disjoint_and_back3_witness :
  trim_to_current_stack_frame
    (Windows.analyze [100; 4; 5; 6]%Z) 3 [1; 2; 3]%Z = Returns [1; 2; 3]%Z ∧
  ∃ rest,
    trim_to_current_stack_frame
      (Windows.analyze [100; 8; 1; 2; 3]%Z) 4 [7; 9; 1; 2; 3]%Z
      = Returns rest ∧ rest = [7; 9]%Z.
Proof.
  split.
  - apply (trim_disjoint_and_back3
             (Windows.analyze [100; 4; 5; 6]%Z) 3 [1; 2; 3]%Z [4; 5; 6]%Z).
    + reflexivity.
    + simpl. lia.
    + intros x Hx Hx'.
      repeat (apply elem_of_cons in Hx as [->|Hx];
        [repeat (apply elem_of_cons in Hx' as [Hx'|Hx'];
                   [discriminate Hx'|]);
         by apply elem_of_nil in Hx'|]).
      by apply elem_of_nil in Hx.
  - destruct (trim_disjoint_and_back3
                (Windows.analyze [100; 8; 1; 2; 3]%Z) 4
                [7; 9; 1; 2; 3]%Z [8; 1; 2; 3]%Z) as [_ H3].
    + reflexivity.
    + simpl. lia.
    + destruct (H3 [7; 9]%Z [8]%Z [1; 2; 3]%Z) as (rest & Ht & _ & Hex);
        [reflexivity | reflexivity | reflexivity |].
      exists rest. split; [exact Ht|]. apply Hex. right; right. discriminate.
Defined.

Lemma trim_loop_more_fuel fuel : ∀ fuel' this current n r,
  trim_loop fuel this current n = Returns r → fuel ≤ fuel' →
  trim_loop fuel' this current n = Returns r.
Proof.
  induction fuel as [|fuel IH]; intros fuel' this current n r; cbn [trim_loop].
  - destruct (trim_cond this current) eqn:Hc; [done|].
    intros Hr _. destruct fuel'; cbn [trim_loop]; by rewrite Hc.
  - destruct (trim_cond this current) eqn:Hc.
    + intros Hr Hle. destruct fuel' as [|fuel']; [lia|].
      cbn [trim_loop]. rewrite Hc.
      destruct (trim_body this current) as [[|t c]| |]; cbn in *; try done.
      apply IH; [done|lia].
    + intros Hr _. destruct fuel'; cbn [trim_loop]; by rewrite Hc.
Qed.

(** C10: the loop of [trim_to_current_stack_frame] ends for every pair of
    stacks: [min (length this) (length current)] executions of the body are
    enough, more fuel does not change the result, and an execution of the
    body after which the loop goes on shortens both vectors. *)
Theorem trim_loop_terminates (fuel : nat) (this current : list Address) :
  length this `min` length current ≤ fuel →
  (∃ this' current' n,
     trim_loop fuel this current 0 = Returns (this', current', n) ∧
     trim_loop (length this `min` length current) this current 0
       = Returns (this', current', n) ∧
     n ≤ length this `min` length current) ∧
  (∀ t c t' c', trim_body t c = Returns (Continue t' c') →
     length t' < length t ∧ length c' < length c).
Proof.
  intros Hfuel. split.
  - destruct (trim_loop_run (length this `min` length current) this current 0)
      as (R' & C' & S0 & m & _ & _ & _ & _ & Hm & Hrun); [done|].
    exists R', C', (0 + m). split_and!; [|done|lia].
    by apply (trim_loop_more_fuel _ _ _ _ _ _ Hrun).
  - intros t c t' c' (x & -> & ->)%trim_body_continue.
    rewrite !length_app. cbn. lia.
Qed.

Lemma trim_loop_terminates_witness :
  ∃ this' current' n,
    trim_loop 7 [9; 1; 2; 3]%Z [8; 1; 2; 3]%Z 0
      = Returns (this', current', n) ∧ n ≤ 4.
Proof.
  destruct (trim_loop_terminates 7 [9; 1; 2; 3]%Z [8; 1; 2; 3]%Z)
    as [(t & c & n & Hrun & _ & Hn) _].
  - simpl. lia.
  - exists t, c, n. split; [exact Hrun | exact Hn].
Defined.

(** ** Capture *)

Lemma windows_analyze frames prior :
  Windows.analyze frames prior
    = Returns (take 64 (drop base_skip_frames frames)).
Proof.
  unfold Windows.analyze, Windows.RtlCaptureStackBackTrace.
  set (b := replicate 64 null).
  assert (length b = 64) as Hb by apply length_replicate.
  clearbody b. rewrite Hb.
  set (w := take 64 (drop base_skip_frames frames)).
  assert (length w ≤ 64) as Hw by (unfold w; rewrite length_take; lia).
  clearbody w. f_equal.
  rewrite length_app, length_drop, Hb.
  replace (length w + (64 - length w)) with 64 by lia.
  destruct (Nat.ltb_spec (length w) 64) as [Hlt|Hge].
  - unfold resize. rewrite take_app_length, length_app, length_drop, Hb.
    replace (length w - (length w + (64 - length w))) with 0 by lia.
    apply app_nil_r.
  - rewrite drop_ge by lia. apply app_nil_r.
Qed.

Lemma libbacktrace_walk frames : ∀ stack_addrs,
  Libbacktrace.walk_frames Libbacktrace.backtrace_simple_callback
    frames stack_addrs = stack_addrs ++ frames.
Proof.
  induction frames as [|f frames IH]; intros st; cbn.
  - by rewrite app_nil_r.
  - rewrite IH. unfold push_back. by rewrite <-(assoc_L (++)).
Qed.

Lemma libbacktrace_analyze frames prior :
  Libbacktrace.analyze frames prior
    = Returns (prior ++ drop base_skip_frames frames).
Proof.
  unfold Libbacktrace.analyze, Libbacktrace.backtrace_simple.
  by rewrite libbacktrace_walk.
Qed.

Lemma capture_attempt_retry frames buffer :
  length buffer ≤ length frames →
  Posix.capture_attempt frames buffer
    = Posix.Retry (take (length buffer) frames
                     ++ replicate (length buffer) null).
Proof.
  intros Hle. unfold Posix.capture_attempt, Posix.backtrace.
  rewrite length_take, Nat.min_l by done.
  rewrite drop_all, app_nil_r, length_take, Nat.min_l by done.
  rewrite Nat.ltb_irrefl. unfold resize.
  rewrite length_take, Nat.min_l by done.
  rewrite take_ge by (rewrite length_take; lia).
  do 3 f_equal. lia.
Qed.

Lemma capture_attempt_stop frames buffer :
  length frames < length buffer →
  Posix.capture_attempt frames buffer = Posix.Stop frames.
Proof.
  intros Hlt. unfold Posix.capture_attempt, Posix.backtrace.
  rewrite take_ge by lia.
  rewrite length_app, length_drop.
  replace (length frames + (length buffer - length frames))
    with (length buffer) by lia.
  rewrite (proj2 (Nat.ltb_lt _ _) Hlt). unfold resize.
  rewrite take_app_length, length_app, length_drop.
  replace (length frames - _) with 0 by lia.
  by rewrite app_nil_r.
Qed.

Lemma capture_loop_run fuel : ∀ frames buffer,
  0 < length buffer → length frames < length buffer + fuel →
  Posix.capture_loop fuel frames buffer = Returns frames.
Proof.
  induction fuel as [|fuel IH]; intros frames buffer Hpos Hfuel.
  - cbn [Posix.capture_loop]. by rewrite capture_attempt_stop by lia.
  - cbn [Posix.capture_loop].
    destruct (decide (length frames < length buffer)) as [Hlt|Hge].
    + by rewrite capture_attempt_stop.
    + rewrite capture_attempt_retry by lia. apply IH.
      * rewrite length_app, length_replicate. lia.
      * rewrite length_app, length_take, length_replicate. lia.
Qed.

Lemma store_elements buffer : ∀ idx stack_addrs,
  (foldl Posix.store_element (idx, stack_addrs) buffer).2
    = stack_addrs ++ drop (base_skip_frames - idx) buffer.
Proof.
  induction buffer as [|x buffer IH]; intros idx st; cbn [foldl].
  - by rewrite drop_nil, app_nil_r.
  - unfold Posix.store_element at 2. cbn [fst snd].
    rewrite IH. unfold base_skip_frames.
    destruct idx as [|idx]; cbn.
    + done.
    + unfold push_back. by rewrite <-(assoc_L (++)).
Qed.

Lemma drop_entry_frames_spec n : ∀ stack_addrs,
  Posix.drop_entry_frames n stack_addrs
    = if decide (n ≤ length stack_addrs)
      then Returns (take (length stack_addrs - n) stack_addrs)
      else Undefined.
Proof.
  induction n as [|n IH]; intros v; cbn [Posix.drop_entry_frames].
  - rewrite decide_True by lia. by rewrite Nat.sub_0_r, firstn_all.
  - destruct (snoc_cases v) as [->|(l & x & ->)].
    + by rewrite pop_back_nil.
    + rewrite pop_back_snoc. cbn. rewrite IH, length_app. cbn [length].
      destruct (decide (n ≤ length l)).
      * rewrite decide_True by lia. f_equal.
        replace (length l + 1 - S n) with (length l - n) by lia.
        by rewrite take_app_le by lia.
      * by rewrite decide_False by lia.
Qed.

Lemma posix_analyze fuel frames prior :
  length frames < 64 + fuel →
  Posix.analyze fuel frames prior
    = Posix.drop_entry_frames skip_entry_frames
        (prior ++ drop base_skip_frames frames).
Proof.
  intros Hfuel. unfold Posix.analyze.
  rewrite capture_loop_run by (rewrite ?length_replicate; lia).
  cbn [mbind outcome_bind]. by rewrite store_elements.
Qed.

(** C2: on the POSIX path a capture of no frame, or of no more frames than
    [base_skip_frames], on a new instance runs [pop_back()] on an empty
    vector; the two other backends return with what was captured. *)
Theorem analyze_short_capture (fuel : nat) (a : Address)
    (prior : list Address) :
  Posix.analyze fuel [] [] = Undefined ∧
  Posix.analyze fuel [a] [] = Undefined ∧
  Windows.analyze [] prior = Returns [] ∧
  Windows.analyze [a] prior = Returns [] ∧
  Libbacktrace.analyze [] prior = Returns prior ∧
  Libbacktrace.analyze [a] prior = Returns prior.
Proof.
  split_and!.
  - rewrite posix_analyze by (cbn; lia). reflexivity.
  - rewrite posix_analyze by (cbn; lia). reflexivity.
  - by rewrite windows_analyze.
  - by rewrite windows_analyze.
  - rewrite libbacktrace_analyze. cbn. by rewrite app_nil_r.
  - rewrite libbacktrace_analyze. cbn. by rewrite app_nil_r.
Qed.

(** C7: on the debug-info-library path and on the POSIX path [analyze]
    appends to what the instance held before; only the Windows path
    replaces it. *)
Theorem analyze_keeps_prior_content (frames prior : list Address)
    (fuel : nat) :
  Libbacktrace.analyze frames prior
    = Returns (prior ++ drop base_skip_frames frames) ∧
  Libbacktrace.analyze [10; 11; 12]%Z [99]%Z = Returns [99; 11; 12]%Z ∧
  Posix.analyze fuel [10; 11; 12; 13]%Z [99]%Z = Returns [99; 11; 12]%Z ∧
  Windows.analyze [10; 11; 12]%Z [99]%Z = Returns [11; 12]%Z.
Proof.
  split_and!.
  - apply libbacktrace_analyze.
  - reflexivity.
  - rewrite posix_analyze by (cbn; lia). reflexivity.
  - reflexivity.
Qed.

(** C8: an attempt whose frame count reaches the capacity of the buffer
    doubles the buffer and is repeated, an attempt with a count below the
    capacity ends the loop with the frames captured; [analyze] then stores
    them without the first [base_skip_frames] and removes the last
    [skip_entry_frames] entries. *)
Theorem posix_analyze_grows_and_cuts (fuel : nat)
    (frames buffer prior : list Address) :
  (length buffer ≤ length frames →
     (Posix.backtrace frames buffer (length buffer)).1 = length buffer ∧
     ∃ buffer', Posix.capture_attempt frames buffer = Posix.Retry buffer' ∧
       length buffer' = length buffer * 2) ∧
  (length frames < length buffer →
     (Posix.backtrace frames buffer (length buffer)).1 = length frames ∧
     Posix.capture_attempt frames buffer = Posix.Stop frames) ∧
  (length frames < 64 + fuel →
     Posix.capture_loop fuel frames (replicate 64 null) = Returns frames ∧
     Posix.analyze fuel frames prior
       = Posix.drop_entry_frames skip_entry_frames
           (prior ++ drop base_skip_frames frames) ∧
     let stored := prior ++ drop base_skip_frames frames in
     (skip_entry_frames ≤ length stored →
        Posix.analyze fuel frames prior
          = Returns (take (length stored - skip_entry_frames) stored))).
Proof.
  split_and!.
  - intros Hle. split.
    + cbn. rewrite length_take. lia.
    + eexists. split; [by apply capture_attempt_retry|].
      rewrite length_app, length_take, length_replicate. lia.
  - intros Hlt. split.
    + cbn. rewrite length_take. lia.
    + by apply capture_attempt_stop.
  - intros Hfuel. split_and!.
    + apply capture_loop_run; rewrite ?length_replicate; lia.
    + by apply posix_analyze.
    + intros stored Hlen. rewrite posix_analyze by done.
      rewrite drop_entry_frames_spec. by rewrite decide_True.
Qed.

Lemma posix_analyze_grows_and_cuts_witness :
  (∃ buffer',
     Posix.capture_attempt (replicate 70 7%Z) (replicate 64 null)
       = Posix.Retry buffer' ∧ length buffer' = 64 * 2) ∧
  Posix.capture_attempt [10; 11; 12; 13]%Z (replicate 64 null)
    = Posix.Stop [10; 11; 12; 13]%Z ∧
  Posix.analyze 1 [10; 11; 12; 13]%Z [] = Returns [11; 12]%Z.
Proof.
  split_and!.
  - destruct (posix_analyze_grows_and_cuts
                0 (replicate 70 7%Z) (replicate 64 null) [])
      as [Hretry _].
    destruct Hretry as [_ Hretry]; [vm_compute; lia | exact Hretry].
  - destruct (posix_analyze_grows_and_cuts
                0 [10; 11; 12; 13]%Z (replicate 64 null) [])
      as (_ & Hstop & _).
    destruct Hstop as [_ Hstop]; [vm_compute; lia | exact Hstop].
  - destruct (posix_analyze_grows_and_cuts
                1 [10; 11; 12; 13]%Z (replicate 64 null) [])
      as (_ & _ & Hrun).
    destruct Hrun as (_ & _ & Hcut); [vm_compute; lia |].
    apply Hcut. vm_compute. lia.
Defined.

(** ** Resolution *)

Section Resolution.
Context `{Externals}.
Import Libbacktrace.

Lemma deliver_pcinfo_cons pc0 ev evs w :
  deliver_pcinfo pc0 backtrace_pcinfo_callback
    backtrace_pcinfo_error_callback (ev :: evs) w
  = deliver_pcinfo pc0 backtrace_pcinfo_callback
      backtrace_pcinfo_error_callback evs
      (deliver_pcinfo pc0 backtrace_pcinfo_callback
         backtrace_pcinfo_error_callback [ev] w).
Proof. by destruct ev as [file line [f|]|msg errorno]. Qed.

Lemma deliver_pcinfo_one pc0 ev w :
  info_pc (data w) = pc0 →
  symbols (data (deliver_pcinfo pc0 backtrace_pcinfo_callback
                   backtrace_pcinfo_error_callback [ev] w))
    = symbols (data w) ++ event_records pc0 ev ∧
  info_pc (data (deliver_pcinfo pc0 backtrace_pcinfo_callback
                   backtrace_pcinfo_error_callback [ev] w)) = pc0.
Proof.
  intros Hpc. unfold event_records.
  destruct ev as [file line [f|]|msg errorno]; cbn; [done|done|].
  unfold backtrace_pcinfo_error_callback.
  case_bool_decide; cbn; [|by rewrite app_nil_r].
  unfold backtrace_syminfo. rewrite Hpc.
  destruct (syminfo_event_of pc0) as [symname|m e]; cbn; [done|].
  by rewrite app_nil_r.
Qed.

Lemma deliver_pcinfo_symbols pc0 evs : ∀ w,
  info_pc (data w) = pc0 →
  symbols (data (deliver_pcinfo pc0 backtrace_pcinfo_callback
                   backtrace_pcinfo_error_callback evs w))
    = symbols (data w) ++ (evs ≫= event_records pc0).
Proof.
  induction evs as [|ev evs IH]; intros w Hpc.
  - cbn. by rewrite app_nil_r.
  - rewrite deliver_pcinfo_cons.
    destruct (deliver_pcinfo_one pc0 ev w Hpc) as [Hs Hp].
    rewrite IH by done. rewrite Hs, bind_cons. by rewrite (assoc_L (++)).
Qed.

Lemma resolve_one_symbols w a :
  symbols (data (resolve_one w a))
    = symbols (data w) ++ (pcinfo_events a ≫= event_records a).
Proof.
  unfold resolve_one, backtrace_pcinfo.
  by rewrite deliver_pcinfo_symbols.
Qed.

Lemma records_of_events a :
  records_of a = pcinfo_events a ≫= event_records a.
Proof. unfold records_of. by rewrite resolve_one_symbols. Qed.

Lemma resolve_all stack : ∀ w,
  symbols (data (foldl resolve_one w stack))
    = symbols (data w) ++ (stack ≫= records_of).
Proof.
  induction stack as [|a stack IH]; intros w; cbn [foldl].
  - cbn. by rewrite app_nil_r.
  - rewrite IH, resolve_one_symbols, bind_cons, records_of_events.
    by rewrite (assoc_L (++)).
Qed.

Lemma foldl_collect l : ∀ seen,
  foldl (λ st r, collect r st) seen l = seen ++ l.
Proof.
  induction l as [|r l IH]; intros seen; cbn.
  - by rewrite app_nil_r.
  - rewrite IH. unfold collect. by rewrite <-(assoc_L (++)).
Qed.

Lemma delivered_libbacktrace_records reversed stack :
  delivered_libbacktrace reversed stack
    = if reversed then reverse (stack ≫= records_of)
      else stack ≫= records_of.
Proof.
  unfold delivered_libbacktrace, get_symbols.
  rewrite resolve_all. cbn [symbols data app].
  destruct reversed; cbn [fst]; by rewrite foldl_collect.
Qed.

(** Any callback sees the records of [delivered_libbacktrace], in order. *)
Lemma libbacktrace_get_symbols_callback {St} (cb : backtrace_symbol → St → St)
    reversed stack log0 s :
  (get_symbols cb reversed stack log0 s).1
    = foldl (λ st r, cb r st) s (delivered_libbacktrace reversed stack).
Proof.
  rewrite delivered_libbacktrace_records. unfold get_symbols.
  rewrite resolve_all. cbn [symbols data app]. by destruct reversed.
Qed.

Lemma event_records_pc a ev r : r ∈ event_records a ev → pc r = a.
Proof.
  unfold event_records.
  destruct ev as [file line [f|]|msg errorno]; cbn.
  - by intros ->%list_elem_of_singleton.
  - by intros ->%list_elem_of_singleton.
  - unfold backtrace_pcinfo_error_callback.
    case_bool_decide; cbn; [|by intros ?%elem_of_nil].
    unfold backtrace_syminfo. cbn.
    destruct (syminfo_event_of a) as [symname|m e]; cbn.
    + by intros ->%list_elem_of_singleton.
    + by intros ?%elem_of_nil.
Qed.

Lemma event_records_answered a ev :
  event_answered a ev = true ↔ event_records a ev ≠ [].
Proof.
  unfold event_records, event_answered.
  destruct ev as [file line [f|]|msg errorno]; cbn; [done|done|].
  unfold backtrace_pcinfo_error_callback.
  case_bool_decide; cbn; [|done].
  unfold backtrace_syminfo. cbn.
  by destruct (syminfo_event_of a) as [symname|m e].
Qed.

Lemma event_records_fallback_fields a ev r :
  match ev with PcInfo _ _ (Some _) => False | _ => True end →
  r ∈ event_records a ev → filename r = ""%string ∧ lineno r = 0%Z.
Proof.
  unfold event_records.
  destruct ev as [file line [f|]|msg errorno]; cbn; [done| |].
  - by intros _ ->%list_elem_of_singleton.
  - intros _. unfold backtrace_pcinfo_error_callback.
    case_bool_decide; cbn; [|by intros ?%elem_of_nil].
    unfold backtrace_syminfo. cbn.
    destruct (syminfo_event_of a) as [symname|m e]; cbn.
    + by intros ->%list_elem_of_singleton.
    + by intros ?%elem_of_nil.
Qed.

Lemma answered_records a : answered a = true ↔ records_of a ≠ [].
Proof.
  rewrite records_of_events. unfold answered.
  induction (pcinfo_events a) as [|ev evs IH]; cbn [existsb]; [done|].
  rewrite bind_cons, orb_true_iff, IH, event_records_answered.
  destruct (event_records a ev), (evs ≫= event_records a);
    cbn; intuition congruence.
Qed.

Lemma records_of_pc a r : r ∈ records_of a → pc r = a.
Proof.
  rewrite records_of_events.
  intros (ev & Hr & _)%list_elem_of_bind. by eapply event_records_pc.
Qed.

Lemma fallback_deliver_fold {St} (cb : backtrace_symbol → St → St) l :
  ∀ symbol s, filename symbol = ""%string → lineno symbol = 0%Z →
  (foldl (Fallback.deliver cb) (symbol, s) l).2
    = foldl (λ st r, cb r st) s (fallback_record <$> l).
Proof.
  induction l as [|a l IH]; intros symbol s Hf Hl; cbn [foldl fmap list_fmap].
  - done.
  - unfold Fallback.deliver at 2. cbn [fst snd filename lineno functionname].
    rewrite IH by done. by rewrite Hf, Hl.
Qed.

(** Any callback sees the records of [delivered_fallback], in order. *)
Lemma fallback_get_symbols_callback {St} (cb : backtrace_symbol → St → St)
    reversed stack s :
  Fallback.get_symbols cb reversed stack s
    = foldl (λ st r, cb r st) s
        (fallback_record <$> (if reversed then reverse stack else stack)).
Proof.
  unfold Fallback.get_symbols.
  destruct reversed; by rewrite fallback_deliver_fold.
Qed.

Lemma delivered_fallback_records reversed stack :
  delivered_fallback reversed stack
    = fallback_record <$> (if reversed then reverse stack else stack).
Proof.
  unfold delivered_fallback.
  by rewrite fallback_get_symbols_callback, foldl_collect.
Qed.

End Resolution.

(** *** The log of a resolution *)

Section ResolutionLog.
Context `{Externals}.
Import Libbacktrace.

Lemma deliver_pcinfo_one_log pc0 ev w :
  info_pc (data w) = pc0 →
  log (deliver_pcinfo pc0 backtrace_pcinfo_callback
         backtrace_pcinfo_error_callback [ev] w)
    = log w ++ event_log pc0 ev.
Proof.
  intros Hpc. unfold event_log.
  destruct ev as [file line [f|]|msg errorno]; cbn;
    [by rewrite app_nil_r|by rewrite app_nil_r|].
  unfold backtrace_pcinfo_error_callback.
  case_bool_decide; cbn; [|done].
  unfold backtrace_syminfo. rewrite Hpc. cbn.
  destruct (syminfo_event_of pc0) as [symname|m e]; cbn; [|done].
  by rewrite app_nil_r.
Qed.

Lemma deliver_pcinfo_log pc0 evs : ∀ w,
  info_pc (data w) = pc0 →
  log (deliver_pcinfo pc0 backtrace_pcinfo_callback
         backtrace_pcinfo_error_callback evs w)
    = log w ++ (evs ≫= event_log pc0).
Proof.
  induction evs as [|ev evs IH]; intros w Hpc.
  - cbn. by rewrite app_nil_r.
  - rewrite deliver_pcinfo_cons.
    destruct (deliver_pcinfo_one pc0 ev w Hpc) as [_ Hp].
    rewrite IH by done.
    rewrite deliver_pcinfo_one_log, bind_cons by done.
    by rewrite (assoc_L (++)).
Qed.

Lemma resolve_one_log w a :
  log (resolve_one w a) = log w ++ (pcinfo_events a ≫= event_log a).
Proof. unfold resolve_one, backtrace_pcinfo. by rewrite deliver_pcinfo_log. Qed.

Lemma log_of_events a : log_of a = pcinfo_events a ≫= event_log a.
Proof. unfold log_of. by rewrite resolve_one_log. Qed.

Lemma resolve_all_log stack : ∀ w,
  log (foldl resolve_one w stack) = log w ++ (stack ≫= log_of).
Proof.
  induction stack as [|a stack IH]; intros w; cbn [foldl].
  - cbn. by rewrite app_nil_r.
  - rewrite IH, resolve_one_log, bind_cons, log_of_events.
    by rewrite (assoc_L (++)).
Qed.

Lemma get_symbols_log {St} (cb : backtrace_symbol → St → St)
    reversed stack log0 s :
  (get_symbols cb reversed stack log0 s).2 = log0 ++ (stack ≫= log_of).
Proof.
  unfold get_symbols. destruct reversed; cbn [snd]; by rewrite resolve_all_log.
Qed.

Lemma event_record_or_log a ev :
  length (event_records a ev) + length (event_log a ev) = 1.
Proof.
  unfold event_records, event_log.
  destruct ev as [file line [f|]|msg errorno]; cbn; [done|done|].
  unfold backtrace_pcinfo_error_callback.
  case_bool_decide; cbn; [|done].
  unfold backtrace_syminfo. cbn.
  by destruct (syminfo_event_of a) as [symname|m e].
Qed.

Lemma records_and_log_count a :
  length (records_of a) + length (log_of a) = length (pcinfo_events a).
Proof.
  rewrite records_of_events, log_of_events.
  induction (pcinfo_events a) as [|ev evs IH]; [done|].
  rewrite !bind_cons, !length_app. cbn [length].
  pose proof (event_record_or_log a ev). lia.
Qed.

Lemma event_records_lineno a ev r :
  r ∈ event_records a ev → (0 ≤ lineno r < 2 ^ 32)%Z.
Proof.
  unfold event_records.
  destruct ev as [file line [f|]|msg errorno]; cbn.
  - intros ->%list_elem_of_singleton. cbn. by apply Z.mod_pos_bound.
  - by intros ->%list_elem_of_singleton.
  - unfold backtrace_pcinfo_error_callback.
    case_bool_decide; cbn; [|by intros ?%elem_of_nil].
    unfold backtrace_syminfo. cbn.
    destruct (syminfo_event_of a) as [symname|m e]; cbn.
    + by intros ->%list_elem_of_singleton.
    + by intros ?%elem_of_nil.
Qed.

Lemma reverse_bind {A B} (f : A → list B) (l : list A) :
  reverse (l ≫= f) = reverse l ≫= (reverse ∘ f).
Proof.
  induction l as [|x l IH]; [done|].
  rewrite bind_cons, reverse_app, reverse_cons, bind_app, IH.
  f_equal. cbn. by rewrite app_nil_r.
Qed.

End ResolutionLog.

(** C1 as stated fails on the debug-info-library path: address 4 of the
    sample platform makes the library report an internal error, address 7
    has no debug info and makes the symbol-table query fail, and
    [get_symbols] delivers no record for either, in either order. *)
Lemma get_symbols_skips_failed_address :
  let stack := [1; 4; 7; 2]%Z in
  4%Z ∈ stack ∧ 7%Z ∈ stack ∧
  @pcinfo_events sample_externals 4%Z = [PcError "bad dwarf" 0] ∧
  @pcinfo_events sample_externals 7%Z = [PcError "no debug info" (-1)] ∧
  @syminfo_event_of sample_externals 7%Z = SymError "no symbol table" 2 ∧
  @delivered_libbacktrace sample_externals false stack
    = [mk_symbol "a.cpp" 10 "d:_Zf" 1; mk_symbol "" 0 "" 2] ∧
  (∀ reversed, ¬ ∃ r,
     r ∈ @delivered_libbacktrace sample_externals reversed stack ∧
     (pc r = 4%Z ∨ pc r = 7%Z)).
Proof.
  cbn zeta. split_and!; [set_solver|set_solver|reflexivity..|].
  intros reversed (r & Hr & Hpc).
  destruct reversed; vm_compute in Hr;
    repeat (apply elem_of_cons in Hr as [->|Hr];
              [by destruct Hpc as [Hpc|Hpc]|]);
    by apply elem_of_nil in Hr.
Qed.

(** C1, amended.  [get_symbols] resolves every address of the sequence:
    the records delivered are those of the addresses in the order of the
    sequence (the whole list reversed on request) and the log grows by the
    entries of the addresses in that order, so a failure on one address
    takes nothing from the others and stops nothing.  On the
    debug-info-library path each invocation the library makes for an
    address is handled on its own.  An answering invocation (the result
    callback of the line-info query, or "not found", number -1, where the
    symbol-table query invokes its result callback) pushes one record for
    the address and logs nothing; any other invocation pushes no record
    and logs one entry: an error with another number its message and
    number, a "not found" where the symbol-table query fails the error of
    that query.  So an address with an answering invocation gets at least
    one record; every record carries its address, and where no invocation
    has a function name its filename is empty and its line 0; an address
    without answering invocation gets no record and one log entry for
    every invocation.  On the fallback path every address gets exactly one
    record, with empty filename and line 0. *)
Theorem get_symbols_resolves_each_address `{Externals} {St : Type}
    (cb : backtrace_symbol → St → St) (reversed : bool)
    (stack : list Address) (log0 : list Libbacktrace.log_entry) (s : St) :
  delivered_libbacktrace reversed stack
    = (if reversed then reverse (stack ≫= records_of)
       else stack ≫= records_of) ∧
  Libbacktrace.get_symbols cb reversed stack log0 s
    = (foldl (λ st r, cb r st) s (delivered_libbacktrace reversed stack),
       log0 ++ (stack ≫= log_of)) ∧
  (∀ a, records_of a = pcinfo_events a ≫= event_records a ∧
        log_of a = pcinfo_events a ≫= event_log a) ∧
  (∀ a ev, event_answered a ev = true →
     ∃ r, event_records a ev = [r] ∧ pc r = a ∧ event_log a ev = []) ∧
  (∀ a ev, event_answered a ev = false →
     event_records a ev = [] ∧ length (event_log a ev) = 1) ∧
  (∀ a msg e, e ≠ (-1)%Z →
     event_records a (PcError msg e) = [] ∧
     event_log a (PcError msg e) = [Libbacktrace.mk_log msg e]) ∧
  (∀ a msg m e, syminfo_event_of a = SymError m e →
     event_records a (PcError msg (-1)) = [] ∧
     event_log a (PcError msg (-1)) = [Libbacktrace.mk_log m e]) ∧
  (∀ a, a ∈ stack → answered a = true →
     ∃ r, r ∈ delivered_libbacktrace reversed stack ∧ pc r = a) ∧
  (∀ a r, r ∈ records_of a →
     pc r = a ∧
     (without_debug_info a = true →
        filename r = ""%string ∧ lineno r = 0%Z)) ∧
  (∀ a, answered a = false →
     records_of a = [] ∧ length (log_of a) = length (pcinfo_events a)) ∧
  delivered_fallback reversed stack
    = (λ a, mk_symbol "" 0 (symbol_name a false true) a)
        <$> (if reversed then reverse stack else stack) ∧
  length (delivered_fallback reversed stack) = length stack.
Proof.
  assert (∀ a, answered a = false → records_of a = []) as Hnone.
  { intros a Hans. destruct (records_of a) eqn:Hrs; [done|].
    assert (answered a = true) as Ht; [|congruence].
    apply answered_records. by rewrite Hrs. }
  split_and!.
  - apply delivered_libbacktrace_records.
  - rewrite <-libbacktrace_get_symbols_callback with (log0 := log0).
    rewrite <-(get_symbols_log cb reversed stack log0 s).
    by destruct (Libbacktrace.get_symbols cb reversed stack log0 s).
  - intros a. split; [apply records_of_events | apply log_of_events].
  - intros a ev Hans. apply event_records_answered in Hans.
    pose proof (event_record_or_log a ev) as Hone.
    destruct (event_records a ev) as [|r [|r' rs]] eqn:Hrs;
      [done| |cbn in Hone; lia].
    exists r. split_and!; [done| |].
    + apply (event_records_pc a ev). rewrite Hrs. by left.
    + destruct (event_log a ev); [done | cbn in Hone; lia].
  - intros a ev Hans.
    pose proof (event_record_or_log a ev) as Hone.
    destruct (event_records a ev) as [|r rs] eqn:Hrs.
    + split; [done | cbn in Hone; lia].
    + assert (event_answered a ev = true) as Ht; [|congruence].
      apply event_records_answered. by rewrite Hrs.
  - intros a msg e He. unfold event_records, event_log. cbn.
    unfold Libbacktrace.backtrace_pcinfo_error_callback.
    by rewrite bool_decide_eq_false_2.
  - intros a msg m e Hs. unfold event_records, event_log. cbn.
    unfold Libbacktrace.backtrace_pcinfo_error_callback,
      Libbacktrace.backtrace_syminfo. cbn. by rewrite Hs.
  - intros a Ha Hans. apply answered_records in Hans.
    destruct (records_of a) as [|r rs] eqn:Hrs; [done|].
    exists r. split.
    + rewrite delivered_libbacktrace_records.
      assert (r ∈ stack ≫= records_of) as Hin.
      { apply list_elem_of_bind. exists a. rewrite Hrs. split; [by left|done]. }
      destruct reversed; [by apply elem_of_reverse | done].
    + apply records_of_pc. rewrite Hrs. by left.
  - intros a r Hr. split; [by apply records_of_pc|].
    intros Hno. rewrite records_of_events in Hr.
    apply list_elem_of_bind in Hr as (ev & Hr & Hev).
    unfold without_debug_info in Hno.
    rewrite forallb_forall in Hno. apply list_elem_of_In, Hno in Hev.
    eapply event_records_fallback_fields; [|done].
    by destruct ev as [? ? [?|]|].
  - intros a Hans. split; [by apply Hnone|].
    pose proof (records_and_log_count a) as Hcount.
    rewrite (Hnone a Hans) in Hcount. cbn in Hcount. lia.
  - apply delivered_fallback_records.
  - rewrite delivered_fallback_records, length_fmap.
    destruct reversed; [apply length_reverse | done].
Qed.

Lemma get_symbols_resolves_each_address_witness :
  (∃ r, @event_records sample_externals 3%Z (PcError "no debug info" (-1))
          = [r] ∧ pc r = 3%Z ∧
        @event_log sample_externals 3%Z (PcError "no debug info" (-1))
          = []) ∧
  (@event_records sample_externals 4%Z (PcError "bad dwarf" 0) = [] ∧
   @event_log sample_externals 4%Z (PcError "bad dwarf" 0)
     = [Libbacktrace.mk_log "bad dwarf" 0]) ∧
  (@event_records sample_externals 7%Z (PcError "no debug info" (-1)) = [] ∧
   @event_log sample_externals 7%Z (PcError "no debug info" (-1))
     = [Libbacktrace.mk_log "no symbol table" 2]) ∧
  (∃ r, r ∈ @delivered_libbacktrace sample_externals true [1; 4; 3]%Z ∧
        pc r = 3%Z) ∧
  (@records_of sample_externals 4%Z = [] ∧
   length (@log_of sample_externals 4%Z)
     = length (@pcinfo_events sample_externals 4%Z)).
Proof.
  destruct (@get_symbols_resolves_each_address sample_externals _
              collect true [1; 4; 3]%Z [] [])
    as (_ & _ & _ & Hone & _ & Hother & Hfail & Hans & _ & Hnone & _).
  split; [apply Hone; reflexivity|].
  split; [apply Hother; discriminate|].
  split; [apply Hfail; reflexivity|].
  split; [|apply Hnone; reflexivity].
  apply Hans; [|reflexivity].
  apply elem_of_cons; right. apply elem_of_cons; right.
  apply elem_of_cons; left. reflexivity.
Defined.

(** C3 as stated fails: address 6 of the sample platform has no debug info
    (error number -1) and no symbol-table entry; the generic utility knows
    the name "start", and the record delivered has an empty function
    name. *)
Lemma cascade_leaves_name_empty :
  @pcinfo_events sample_externals 6%Z = [PcError "no debug info" (-1)] ∧
  @syminfo_event_of sample_externals 6%Z = SymInfo None ∧
  @symbol_name sample_externals 6%Z false true = "start"%string ∧
  @delivered_libbacktrace sample_externals false [6]%Z
    = [mk_symbol "" 0 "" 6] ∧
  ¬ ∃ r, r ∈ @delivered_libbacktrace sample_externals false [6]%Z ∧
         functionname r = @symbol_name sample_externals 6%Z false true.
Proof.
  split_and!; [reflexivity..|].
  intros (r & Hr & Hname). vm_compute in Hr.
  apply elem_of_cons in Hr as [->|Hr]; [discriminate Hname|].
  by apply elem_of_nil in Hr.
Qed.

(** C3, amended: the records of an address are those of the invocations
    the line-info query makes, in order.  An invocation with a function
    name gives file, line and demangled function; one without a function
    name goes to the generic address-to-name utility; "not found" (error
    number -1) goes to the symbol-table query, which gives the demangled
    symbol name, or an empty name when it finds none (the generic utility
    is not asked then), or no record when it fails; any other error gives
    no record. *)
Theorem resolution_cascade `{Externals} (a : Address) :
  records_of a = pcinfo_events a ≫= event_records a ∧
  (∀ file line f,
     event_records a (PcInfo file line (Some f))
       = [mk_symbol (match file with None => ""%string | Some n => n end)
                    (line `mod` 2 ^ 32)%Z (demangle f) a]) ∧
  (∀ file line,
     event_records a (PcInfo file line None)
       = [mk_symbol "" 0 (symbol_name a false true) a]) ∧
  (∀ msg s, syminfo_event_of a = SymInfo (Some s) →
     event_records a (PcError msg (-1)) = [mk_symbol "" 0 (demangle s) a]) ∧
  (∀ msg, syminfo_event_of a = SymInfo None →
     event_records a (PcError msg (-1)) = [mk_symbol "" 0 "" a]) ∧
  (∀ msg m e, syminfo_event_of a = SymError m e →
     event_records a (PcError msg (-1)) = []) ∧
  (∀ msg e, e ≠ (-1)%Z → event_records a (PcError msg e) = []).
Proof.
  split_and!.
  - apply records_of_events.
  - done.
  - done.
  - intros msg s Hs. unfold event_records. cbn.
    unfold Libbacktrace.backtrace_pcinfo_error_callback,
      Libbacktrace.backtrace_syminfo. cbn. by rewrite Hs.
  - intros msg Hs. unfold event_records. cbn.
    unfold Libbacktrace.backtrace_pcinfo_error_callback,
      Libbacktrace.backtrace_syminfo. cbn. by rewrite Hs.
  - intros msg m e Hs. unfold event_records. cbn.
    unfold Libbacktrace.backtrace_pcinfo_error_callback,
      Libbacktrace.backtrace_syminfo. cbn. by rewrite Hs.
  - intros msg e He. unfold event_records. cbn.
    unfold Libbacktrace.backtrace_pcinfo_error_callback.
    by rewrite bool_decide_eq_false_2.
Qed.

Lemma resolution_cascade_witness :
  @event_records sample_externals 3%Z (PcError "no debug info" (-1))
    = [mk_symbol "" 0 "d:_Zg" 3] ∧
  @event_records sample_externals 6%Z (PcError "no debug info" (-1))
    = [mk_symbol "" 0 "" 6] ∧
  @event_records sample_externals 7%Z (PcError "no debug info" (-1)) = [] ∧
  @event_records sample_externals 4%Z (PcError "bad dwarf" 0) = [].
Proof.
  split_and!.
  - destruct (@resolution_cascade sample_externals 3%Z)
      as (_ & _ & _ & Hsym & _).
    apply (Hsym _ "_Zg"%string). reflexivity.
  - destruct (@resolution_cascade sample_externals 6%Z)
      as (_ & _ & _ & _ & Hnone & _).
    apply Hnone. reflexivity.
  - destruct (@resolution_cascade sample_externals 7%Z)
      as (_ & _ & _ & _ & _ & Hfail & _).
    apply (Hfail _ "no symbol table"%string 2%Z). reflexivity.
  - destruct (@resolution_cascade sample_externals 4%Z)
      as (_ & _ & _ & _ & _ & _ & Hother).
    apply Hother. discriminate.
Defined.

(** C6: on both paths the records delivered with [reversed = false], read
    backwards, are the records delivered with [reversed = true]; the
    forward order is the order of the captured sequence. *)
Theorem get_symbols_order_symmetry `{Externals} (stack : list Address) :
  reverse (delivered_libbacktrace false stack)
    = delivered_libbacktrace true stack ∧
  reverse (delivered_fallback false stack) = delivered_fallback true stack ∧
  delivered_libbacktrace false stack = stack ≫= records_of ∧
  delivered_fallback false stack = fallback_record <$> stack.
Proof.
  rewrite !delivered_libbacktrace_records, !delivered_fallback_records.
  by rewrite fmap_reverse.
Qed.

(** C9: on the fallback path [get_symbols] delivers, for the addresses in
    capture order or in the opposite order, one record each, with empty
    filename, line 0 and the name the generic utility gives for the
    address; whatever the callback, these are the records it sees. *)
Theorem fallback_get_symbols_records `{Externals}
    (reversed : bool) (stack : list Address) :
  delivered_fallback reversed stack
    = (λ a, mk_symbol "" 0 (symbol_name a false true) a)
        <$> (if reversed then reverse stack else stack) ∧
  (∀ r, r ∈ delivered_fallback reversed stack →
     filename r = ""%string ∧ lineno r = 0%Z ∧
     functionname r = symbol_name (pc r) false true ∧ pc r ∈ stack) ∧
  (∀ (St : Type) (cb : backtrace_symbol → St → St) (s : St),
     Fallback.get_symbols cb reversed stack s
       = foldl (λ st r, cb r st) s (delivered_fallback reversed stack)).
Proof.
  split_and!.
  - apply delivered_fallback_records.
  - rewrite delivered_fallback_records.
    intros r (a & -> & Ha)%list_elem_of_fmap. cbn. split_and!; try done.
    destruct reversed; [by rewrite elem_of_reverse in Ha | done].
  - intros St cb s.
    by rewrite delivered_fallback_records, fallback_get_symbols_callback.
Qed.

Lemma fallback_get_symbols_records_witness :
  filename (mk_symbol "" 0 "start" 6) = ""%string ∧
  lineno (mk_symbol "" 0 "start" 6) = 0%Z ∧
  functionname (mk_symbol "" 0 "start" 6)
    = @symbol_name sample_externals 6%Z false true.
Proof.
  destruct (@fallback_get_symbols_records sample_externals true [1; 6]%Z)
    as (_ & Hfields & _).
  destruct (Hfields (mk_symbol "" 0 "start" 6)) as (Hf & Hl & Hn & _).
  - vm_compute. apply elem_of_cons; left. reflexivity.
  - split; [exact Hf | split; [exact Hl | exact Hn]].
Defined.

(** * Further properties of the code *)

(** ** Trimming *)

(** A split at a common suffix that cannot be extended is the one the loop
    finds. *)
Lemma trim_loop_exact fuel (R' C' S : list Address) :
  R' = [] ∨ C' = [] ∨ back R' ≠ back C' →
  length (R' ++ S) `min` length (C' ++ S) ≤ fuel →
  ∃ n, trim_loop fuel (R' ++ S) (C' ++ S) 0 = Returns (R', C', n).
Proof.
  intros Hstop Hfuel.
  destruct (trim_loop_run fuel (R' ++ S) (C' ++ S) 0 Hfuel)
    as (R1 & C1 & S1 & m & HR & HC & Hstop1 & _ & _ & Hrun).
  assert (S1 = S) as ->.
  { apply (anti_symm suffix).
    - apply (unextendable_suffix_longest R' C'); [done|..].
      + rewrite HR. by apply suffix_app_r.
      + rewrite HC. by apply suffix_app_r.
    - apply (unextendable_suffix_longest R1 C1); [done|..].
      + rewrite <-HR. by apply suffix_app_r.
      + rewrite <-HC. by apply suffix_app_r. }
  apply (inj (.++ S)) in HR, HC. subst R1 C1. by exists (0 + m).
Qed.

(** X1: the loop treats its two vectors alike: trimming [current] against
    [this] leaves what trimming [this] against [current] leaves, with the
    sides exchanged and after the same number of body executions. *)
Theorem trim_loop_symmetric (fuel : nat) (this current t c : list Address)
    (n m : nat) :
  trim_loop fuel this current n = Returns (t, c, m) →
  trim_loop fuel current this n = Returns (c, t, m).
Proof.
  assert (∀ a b, trim_cond a b = trim_cond b a) as Hcond.
  { intros a b. unfold trim_cond. apply andb_comm. }
  revert this current n.
  induction fuel as [|fuel IH]; intros this current n;
    cbn [trim_loop]; rewrite (Hcond current this);
    destruct (trim_cond this current) eqn:Hc; try done.
  - by intros [= -> -> ->].
  - apply andb_true_iff in Hc as [Hcur Hthis].
    destruct (snoc_cases this) as [->|(t0 & a & ->)]; [done|].
    destruct (snoc_cases current) as [->|(c0 & b & ->)]; [done|].
    rewrite !trim_body_snoc.
    destruct (decide (a = b)) as [->|Hab].
    + rewrite !bool_decide_eq_true_2 by done. cbn. apply IH.
    + rewrite !bool_decide_eq_false_2 by done. cbn. by intros [= <- <- <-].
  - by intros [= -> -> ->].
Qed.

Lemma trim_loop_symmetric_witness :
  trim_loop 4 [8; 1; 2; 3]%Z [9; 7; 1; 2; 3]%Z 0 = Returns ([8]%Z, [9; 7]%Z, 4).
Proof.
  apply (trim_loop_symmetric 4 [9; 7; 1; 2; 3]%Z [8; 1; 2; 3]%Z).
  reflexivity.
Defined.

(** X2: an empty receiver stays empty and an empty capture leaves the
    receiver as it is, whatever the fuel. *)
Theorem trim_empty_sides
    (analyze : list Address → outcome (list Address)) (fuel : nat)
    (R C : list Address) :
  analyze [] = Returns C →
  trim_to_current_stack_frame analyze fuel [] = Returns [] ∧
  (C = [] → trim_to_current_stack_frame analyze fuel R = Returns R).
Proof.
  intros Ha. unfold trim_to_current_stack_frame. rewrite Ha. cbn. split.
  - rewrite trim_loop_exit by auto. reflexivity.
  - intros ->. rewrite trim_loop_exit by auto. reflexivity.
Qed.

Lemma trim_empty_sides_witness :
  trim_to_current_stack_frame (Windows.analyze [100; 1; 2]%Z) 0 []
    = Returns [] ∧
  trim_to_current_stack_frame (Windows.analyze [100]%Z) 0 [1; 2]%Z
    = Returns [1; 2]%Z.
Proof.
  split.
  - destruct (trim_empty_sides
                (Windows.analyze [100; 1; 2]%Z) 0 [] [1; 2]%Z) as [He _].
    + reflexivity.
    + exact He.
  - destruct (trim_empty_sides
                (Windows.analyze [100]%Z) 0 [1; 2]%Z []) as [_ Hc].
    + reflexivity.
    + apply Hc. reflexivity.
Defined.

(** X3: on the POSIX path a trim run when the unwinder gives no more than
    [base_skip_frames] frames is undefined whatever the receiver holds: the
    [pop_back()] on the empty vector of [analyze] is reached before the
    loop. *)
Theorem trim_undefined_on_short_posix_capture (fuel fuel' : nat)
    (frames R : list Address) :
  length frames ≤ base_skip_frames →
  trim_to_current_stack_frame (Posix.analyze fuel frames) fuel' R
    = Undefined.
Proof.
  intros Hlen. unfold trim_to_current_stack_frame.
  unfold base_skip_frames in Hlen.
  rewrite posix_analyze by lia.
  rewrite drop_entry_frames_spec, app_nil_l, length_drop.
  unfold skip_entry_frames, base_skip_frames.
  destruct (decide (1 ≤ length frames - 1)) as [Hd|Hd]; [lia|reflexivity].
Qed.

Lemma trim_undefined_on_short_posix_capture_witness :
  trim_to_current_stack_frame (Posix.analyze 0 [100]%Z) 5 [1; 2; 3]%Z
    = Undefined.
Proof.
  apply (trim_undefined_on_short_posix_capture 0 5 [100]%Z [1; 2; 3]%Z).
  vm_compute. lia.
Defined.

(** X4: on the Windows path the capture holds at most 64 addresses, so a
    trim removes at most 64 entries from the back of the receiver, and 64
    units of fuel are enough for any receiver. *)
Theorem windows_trim_removes_at_most_64 (fuel : nat)
    (frames R : list Address) :
  64 ≤ fuel →
  ∃ R' S,
    trim_to_current_stack_frame (Windows.analyze frames) fuel R
      = Returns R' ∧
    R = R' ++ S ∧ length S ≤ 64.
Proof.
  intros Hfuel.
  set (C := take 64 (drop base_skip_frames frames)).
  assert (length C ≤ 64) as HC by (unfold C; rewrite length_take; lia).
  destruct (trim_loop_run fuel R C 0)
    as (R' & C' & S & m & HR & HCS & _ & _ & _ & Hrun); [lia|].
  exists R', S. split_and!; [|done|].
  - eapply trim_to_current_stack_frame_run; [apply windows_analyze|done].
  - rewrite HCS, length_app in HC. lia.
Qed.

Lemma windows_trim_removes_at_most_64_witness :
  ∃ R' S,
    trim_to_current_stack_frame
      (Windows.analyze [100; 8; 1; 2; 3]%Z) 64 [9; 1; 2; 3]%Z = Returns R' ∧
    [9; 1; 2; 3]%Z = R' ++ S ∧ length S ≤ 64.
Proof.
  apply (windows_trim_removes_at_most_64 64 [100; 8; 1; 2; 3]%Z [9; 1; 2; 3]%Z).
  lia.
Defined.

(** X5: capture and trim together on the debug-info-library path.  An
    instance analysed where the stack is [a :: inner ++ [x]] above the
    frames [common], and trimmed where the stack is [b :: outer ++ [y]]
    above the same [common] with [x ≠ y], keeps exactly [inner ++ [x]]:
    the frames of its own, without the frame of [analyze]. *)
Theorem capture_then_trim_keeps_own_frames (fuel : nat) (a b x y : Address)
    (inner outer common : list Address) :
  x ≠ y →
  length inner + length common + 1 ≤ fuel →
  ∃ R,
    Libbacktrace.analyze (a :: inner ++ [x] ++ common) [] = Returns R ∧
    R = inner ++ [x] ++ common ∧
    trim_to_current_stack_frame
      (Libbacktrace.analyze (b :: outer ++ [y] ++ common)) fuel R
      = Returns (inner ++ [x]).
Proof.
  intros Hxy Hfuel. exists (inner ++ [x] ++ common).
  rewrite !libbacktrace_analyze. cbn [base_skip_frames drop app].
  split_and!; [done|done|].
  destruct (trim_loop_exact fuel (inner ++ [x]) (outer ++ [y]) common)
    as [n Hrun].
  - right; right. rewrite !back_snoc. congruence.
  - rewrite !length_app. cbn [length]. lia.
  - eapply trim_to_current_stack_frame_run.
    + apply libbacktrace_analyze.
    + cbn [base_skip_frames drop app].
      rewrite <-!(assoc_L (++)) in Hrun. exact Hrun.
Qed.

Lemma capture_then_trim_keeps_own_frames_witness :
  ∃ R,
    Libbacktrace.analyze (50%Z :: [1; 2]%Z ++ [3]%Z ++ [7; 8]%Z) [] = Returns R ∧
    R = [1; 2]%Z ++ [3]%Z ++ [7; 8]%Z ∧
    trim_to_current_stack_frame
      (Libbacktrace.analyze (60%Z :: [4]%Z ++ [5]%Z ++ [7; 8]%Z)) 5 R
      = Returns ([1; 2]%Z ++ [3]%Z).
Proof.
  apply (capture_then_trim_keeps_own_frames 5 50 60 3 5 [1; 2]%Z [4]%Z [7; 8]%Z).
  - discriminate.
  - simpl. lia.
Defined.

(** ** Capture *)

(** X6: the Windows capture takes the frames after the first
    [base_skip_frames], cut to the 64 slots of its buffer, and puts them in
    place of whatever the instance held; it never fails. *)
Theorem windows_capture_at_most_64 (frames prior : list Address) :
  Windows.analyze frames prior
    = Returns (take 64 (drop base_skip_frames frames)) ∧
  length (take 64 (drop base_skip_frames frames))
    = 64 `min` (length frames - base_skip_frames).
Proof.
  split; [apply windows_analyze|].
  by rewrite length_take, length_drop.
Qed.

(** X7: given fuel for the doubling loop, the POSIX [analyze] is undefined
    exactly when the instance was empty and the unwinder gave no more than
    [base_skip_frames] frames; in every other case it returns. *)
Theorem posix_analyze_undefined_iff (fuel : nat)
    (frames prior : list Address) :
  length frames < 64 + fuel →
  (Posix.analyze fuel frames prior = Undefined ↔
     prior = [] ∧ length frames ≤ base_skip_frames) ∧
  (Posix.analyze fuel frames prior ≠ Undefined →
     ∃ l x, prior ++ drop base_skip_frames frames = l ++ [x] ∧
            Posix.analyze fuel frames prior = Returns l).
Proof.
  intros Hfuel. rewrite posix_analyze by done.
  unfold skip_entry_frames, base_skip_frames. cbn [Posix.drop_entry_frames].
  destruct (snoc_cases (prior ++ drop 1 frames)) as [Hnil|(l & x & Hsnoc)].
  - rewrite Hnil, pop_back_nil. cbn.
    apply app_nil in Hnil as [-> Hd]. split; [|done]. split; [|done].
    intros _. split; [done|].
    apply (f_equal length) in Hd. rewrite length_drop in Hd. cbn in Hd. lia.
  - rewrite Hsnoc, pop_back_snoc. cbn. split; [|by eauto]. split; [done|].
    intros [-> Hlen]. apply (f_equal length) in Hsnoc.
    rewrite app_nil_l, length_app, length_drop in Hsnoc.
    cbn [length] in Hsnoc. lia.
Qed.

Lemma posix_analyze_undefined_iff_witness :
  (Posix.analyze 0 [100]%Z [] = Undefined ↔
     @nil Address = [] ∧ length [100]%Z ≤ base_skip_frames) ∧
  ∃ l x, [] ++ drop base_skip_frames [100; 1; 2; 3]%Z = l ++ [x] ∧
         Posix.analyze 0 [100; 1; 2; 3]%Z [] = Returns l.
Proof.
  split.
  - apply (posix_analyze_undefined_iff 0 [100]%Z []). vm_compute. lia.
  - destruct (posix_analyze_undefined_iff 0 [100; 1; 2; 3]%Z []) as [_ Hret].
    + vm_compute. lia.
    + apply Hret. discriminate.
Defined.

(** ** Resolution *)

(** X9: [Libbacktrace.get_symbols] resolves the whole sequence before the
    first call of the callback: the callback is folded over the records of
    [delivered_libbacktrace], which do not depend on it, and the log grows
    by the entries of the addresses in sequence order, whatever the
    callback and the order asked for. *)
Theorem libbacktrace_get_symbols_factors `{Externals} {St : Type}
    (cb : backtrace_symbol → St → St) (reversed : bool)
    (stack : list Address) (log0 : list Libbacktrace.log_entry) (s : St) :
  Libbacktrace.get_symbols cb reversed stack log0 s
    = (foldl (λ st r, cb r st) s (delivered_libbacktrace reversed stack),
       log0 ++ (stack ≫= log_of)).
Proof.
  rewrite <-libbacktrace_get_symbols_callback with (log0 := log0).
  rewrite <-(get_symbols_log cb reversed stack log0 s).
  by destruct (Libbacktrace.get_symbols cb reversed stack log0 s).
Qed.

(** X10: nothing the library reports is lost: every invocation of a
    callback by [backtrace_pcinfo] leaves exactly one record or exactly one
    log entry, so the records delivered and the log entries added are
    together as many as the invocations for the addresses of the
    sequence. *)
Theorem every_invocation_leaves_record_or_log `{Externals} {St : Type}
    (cb : backtrace_symbol → St → St) (reversed : bool)
    (stack : list Address) (log0 : list Libbacktrace.log_entry) (s : St) :
  (∀ a ev, length (event_records a ev) + length (event_log a ev) = 1) ∧
  length (delivered_libbacktrace reversed stack)
  + length (Libbacktrace.get_symbols cb reversed stack log0 s).2
    = length log0 + length (stack ≫= pcinfo_events).
Proof.
  split; [apply event_record_or_log|].
  rewrite get_symbols_log, delivered_libbacktrace_records, length_app.
  assert (length (stack ≫= records_of) + length (stack ≫= log_of)
          = length (stack ≫= pcinfo_events)) as Hsum.
  { induction stack as [|a stack IH]; [done|].
    rewrite !bind_cons, !length_app.
    pose proof (records_and_log_count a). lia. }
  destruct reversed; rewrite ?length_reverse; lia.
Qed.

(** X11: what is logged.  A result of the line-info query logs nothing; an
    error other than -1 logs its message and number; the "not found" error
    -1 itself is never logged: it logs nothing when the symbol-table query
    answers, and the error of the symbol-table query when that fails. *)
Theorem resolution_log_entries `{Externals} (a : Address) :
  log_of a = pcinfo_events a ≫= event_log a ∧
  (∀ file line function, event_log a (PcInfo file line function) = []) ∧
  (∀ msg e, e ≠ (-1)%Z →
     event_log a (PcError msg e) = [Libbacktrace.mk_log msg e]) ∧
  (∀ msg s, syminfo_event_of a = SymInfo s →
     event_log a (PcError msg (-1)) = []) ∧
  (∀ msg m e, syminfo_event_of a = SymError m e →
     event_log a (PcError msg (-1)) = [Libbacktrace.mk_log m e]).
Proof.
  split_and!.
  - apply log_of_events.
  - by intros file line [f|].
  - intros msg e He. unfold event_log. cbn.
    unfold Libbacktrace.backtrace_pcinfo_error_callback.
    by rewrite bool_decide_eq_false_2.
  - intros msg s Hs. unfold event_log. cbn.
    unfold Libbacktrace.backtrace_pcinfo_error_callback,
      Libbacktrace.backtrace_syminfo. cbn. by rewrite Hs.
  - intros msg m e Hs. unfold event_log. cbn.
    unfold Libbacktrace.backtrace_pcinfo_error_callback,
      Libbacktrace.backtrace_syminfo. cbn. by rewrite Hs.
Qed.

Lemma resolution_log_entries_witness :
  @event_log sample_externals 4 (PcError "bad dwarf" 0)
    = [Libbacktrace.mk_log "bad dwarf" 0] ∧
  @event_log sample_externals 3 (PcError "no debug info" (-1)) = [] ∧
  @event_log sample_externals 7 (PcError "no debug info" (-1))
    = [Libbacktrace.mk_log "no symbol table" 2].
Proof.
  split_and!.
  - destruct (@resolution_log_entries sample_externals 4)
      as (_ & _ & Hother & _).
    apply Hother. discriminate.
  - destruct (@resolution_log_entries sample_externals 3)
      as (_ & _ & _ & Hsym & _).
    apply (Hsym _ (Some "_Zg"%string)). reflexivity.
  - destruct (@resolution_log_entries sample_externals 7)
      as (_ & _ & _ & _ & Hfail).
    apply Hfail. reflexivity.
Defined.

(** X12: every record [Libbacktrace.get_symbols] delivers belongs to an
    address of the sequence, and its line number lies in the range of
    [unsigned int], whatever [int] the library passed. *)
Theorem delivered_records_in_range `{Externals} (reversed : bool)
    (stack : list Address) (r : backtrace_symbol) :
  r ∈ delivered_libbacktrace reversed stack →
  pc r ∈ stack ∧ (0 ≤ lineno r < 2 ^ 32)%Z.
Proof.
  rewrite delivered_libbacktrace_records. intros Hr.
  assert (r ∈ stack ≫= records_of) as Hin.
  { destruct reversed; [by rewrite elem_of_reverse in Hr | done]. }
  apply list_elem_of_bind in Hin as (a & Hra & Ha). split.
  - by rewrite (records_of_pc a r Hra).
  - rewrite records_of_events in Hra.
    apply list_elem_of_bind in Hra as (ev & Hrev & _).
    by eapply event_records_lineno.
Qed.

Lemma delivered_records_in_range_witness :
  pc (mk_symbol "b.cpp" 7 "d:outer" 5) ∈ [1; 5]%Z ∧
  (0 ≤ lineno (mk_symbol "b.cpp" 7 "d:outer" 5) < 2 ^ 32)%Z.
Proof.
  apply (@delivered_records_in_range sample_externals true [1; 5]%Z).
  vm_compute. apply elem_of_cons; left. reflexivity.
Defined.

(** X13: with [reversed = true] the records of one address come out in the
    opposite order as well: the delivery is that of the reversed sequence
    with the records of each address reversed. *)
Theorem reversed_delivery_reverses_each_address `{Externals}
    (stack : list Address) :
  delivered_libbacktrace true stack
    = reverse stack ≫= (reverse ∘ records_of).
Proof. by rewrite delivered_libbacktrace_records, reverse_bind. Qed.

(** X14: resolution carries nothing from one address to the next: the
    delivery for a sequence put together from two is put together from
    the two deliveries, in the order asked for, on both paths. *)
Theorem delivery_of_concatenation `{Externals} (s1 s2 : list Address) :
  delivered_libbacktrace false (s1 ++ s2)
    = delivered_libbacktrace false s1 ++ delivered_libbacktrace false s2 ∧
  delivered_libbacktrace true (s1 ++ s2)
    = delivered_libbacktrace true s2 ++ delivered_libbacktrace true s1 ∧
  delivered_fallback false (s1 ++ s2)
    = delivered_fallback false s1 ++ delivered_fallback false s2 ∧
  delivered_fallback true (s1 ++ s2)
    = delivered_fallback true s2 ++ delivered_fallback true s1.
Proof.
  rewrite !delivered_libbacktrace_records, !delivered_fallback_records.
  by rewrite bind_app, !reverse_app, !fmap_app.
Qed.

(** X15: where the line-info query answers every address of the sequence
    with one result that has no function name, the debug-info-library path
    delivers what the fallback path delivers, and logs nothing. *)
Theorem libbacktrace_without_function_is_fallback `{Externals}
    (reversed : bool) (stack : list Address) :
  (∀ a, a ∈ stack → ∃ file line, pcinfo_events a = [PcInfo file line None]) →
  delivered_libbacktrace reversed stack = delivered_fallback reversed stack ∧
  stack ≫= log_of = [].
Proof.
  intros Hno.
  assert (stack ≫= records_of = fallback_record <$> stack
          ∧ stack ≫= log_of = []) as [Hrec Hlog].
  { induction stack as [|a stack IH]; [done|].
    destruct (Hno a) as (file & line & Hev); [by left|].
    destruct IH as [IHr IHl]; [intros b Hb; apply Hno; by right|].
    rewrite !bind_cons, IHr, IHl, records_of_events, log_of_events, Hev.
    done. }
  split; [|done].
  rewrite delivered_libbacktrace_records, delivered_fallback_records, Hrec.
  destruct reversed; [by rewrite fmap_reverse | done].
Qed.

Lemma libbacktrace_without_function_is_fallback_witness :
  @delivered_libbacktrace sample_externals true [2; 2]%Z
    = @delivered_fallback sample_externals true [2; 2]%Z.
Proof.
  apply (@libbacktrace_without_function_is_fallback sample_externals).
  intros a Ha. exists None, 0%Z.
  repeat (apply elem_of_cons in Ha as [->|Ha]; [reflexivity|]).
  by apply elem_of_nil in Ha.
Defined.
